(** * acquisitions-jsm: the cookie policy helper and the HTTP smoke harness

    A shallow embedding of [src/utils/cookies.js] and [src/app.test.js].

    JavaScript objects live in a store and are passed around by reference;
    an object is the finite map of its own enumerable data properties
    together with a link to its prototype, which property reads follow
    (accessors other than [__proto__], and symbols, are outside the
    model).
    Code that reads the environment, allocates objects, calls a method of
    the response or throws is written in a state-and-exception monad over
    the store. *)

From stdpp Require Import base option gmap strings list fin_maps pretty.
From Stdlib Require Import ZArith Floats.

Set Warnings "-register-all".

(* ===================================================================== *)
(** ** JavaScript values, the object store and the evaluation monad      *)
(* ===================================================================== *)

Module JS.

Definition loc := positive.

(** A JavaScript value. Numbers that occur in the cookie helper are
    integers; an object is a reference into the store. *)
Inductive value :=
| VUndefined
| VNull
| VBool (b : bool)
| VNumber (n : Z)
| VString (s : string)
| VObject (l : loc).

#[global] Instance value_eq_dec : EqDecision value.
Proof. solve_decision. Defined.

(** What a [throw] carries. *)
Inductive exn :=
| TypeError
| OtherError (msg : string).

#[global] Instance exn_eq_dec : EqDecision exn.
Proof. solve_decision. Defined.

(** How the evaluation of an expression or a call ends. *)
Inductive completion (A : Type) :=
| Return (a : A)
| Throw (e : exn).
Arguments Return {A} a.
Arguments Throw {A} e.

(** One [Set-Cookie] directive as a response keeps it: the operation,
    the cookie's name and value, and the attributes it was given. *)
Inductive directive_kind := StoreCookie | ExpireCookie.

Record directive := Directive {
  d_kind  : directive_kind;
  d_name  : value;
  d_value : value;
  d_attrs : gmap string value
}.

(** The objects every program starts with that a property read can
    reach: the prototype of object literals and the prototypes of the
    wrappers of strings, numbers and booleans. *)
Record realm := Realm {
  Object_prototype  : loc;
  String_prototype  : loc;
  Number_prototype  : loc;
  Boolean_prototype : loc
}.

(** The part of the process the helper can see or touch:
    [process.env], the object store with each object's prototype link
    (an object without a link has the prototype [null]), the realm's
    built-in prototypes, and the directives responses have recorded so
    far. *)
Record world := World {
  env        : gmap string string;
  heap       : gmap loc (gmap string value);
  protos     : gmap loc loc;
  intrinsics : realm;
  sent       : list directive
}.

Definition M (A : Type) : Type := world → completion A * world.

Definition ret {A} (a : A) : M A := λ w, (Return a, w).

Definition throw {A} (e : exn) : M A := λ w, (Throw e, w).

Definition bind {A B} (m : M A) (k : A → M B) : M B :=
  λ w, match m w with
       | (Return a, w') => k a w'
       | (Throw e, w') => (Throw e, w')
       end.

Declare Scope js_scope.
Delimit Scope js_scope with js.
Notation "x <- m ;; k" := (bind m (λ x, k))
  (at level 100, m at next level, right associativity) : js_scope.
Notation "m ;;; k" := (bind m (λ _, k))
  (at level 100, right associativity) : js_scope.
Open Scope js_scope.

(** [process.env.K]: the variable's string, or [undefined] when unset. *)
Definition env_get (k : string) : M value :=
  λ w, (Return (from_option VString VUndefined (env w !! k)), w).

(** [a === b]. *)
Definition strict_equals (a b : value) : bool := bool_decide (a = b).

(** The world with a new ordinary object at [l]: its properties are
    [o], its prototype is the realm's [Object.prototype]. *)
Definition store_object (l : loc) (o : gmap string value) (w : world)
  : world :=
  {| env := env w;
     heap := <[l := o]> (heap w);
     protos := <[l := Object_prototype (intrinsics w)]> (protos w);
     intrinsics := intrinsics w;
     sent := sent w |}.

(** An object literal: a new object at an address the store does not use. *)
Definition alloc (o : gmap string value) : M value :=
  λ w, let l := fresh (dom (heap w)) in
       (Return (VObject l), store_object l o w).

(** The characters of a string as its index properties ["0"], ["1"], ...
    (a string is taken as the sequence of its code units). *)
Fixpoint string_index_props (i : nat) (s : string) : gmap string value :=
  match s with
  | EmptyString => ∅
  | String c s' =>
      <[pretty i := VString (String c EmptyString)]>
        (string_index_props (S i) s')
  end.

(** The own enumerable properties a spread [...v] copies. *)
Definition own_props (h : gmap loc (gmap string value)) (v : value)
  : gmap string value :=
  match v with
  | VObject l => default ∅ (h !! l)
  | VString s => string_index_props 0 s
  | VUndefined | VNull | VBool _ | VNumber _ => ∅
  end.

(** [{ ...target, ...src }] one spread at a time: the properties of
    [src] are written over those already in [target]. *)
Definition copy_data_properties (target src : gmap string value)
  : gmap string value := src ∪ target.

(** [{ ...a, ...b }]. *)
Definition object_spread2 (a b : value) : M value :=
  λ w, alloc (copy_data_properties
                (copy_data_properties ∅ (own_props (heap w) a))
                (own_props (heap w) b)) w.

(** The object at [l] followed by its prototype, the prototype's
    prototype and so on, for at most [fuel] objects. *)
Fixpoint proto_chain (fuel : nat) (ps : gmap loc loc) (l : loc) : list loc :=
  match fuel with
  | O => []
  | S n =>
      l :: match ps !! l with
           | Some p => proto_chain n ps p
           | None => []
           end
  end.

(** The prototype chain of the object at [l]. A chain without a cycle
    has at most one object more than there are prototype links. *)
Definition chain_of (w : world) (l : loc) : list loc :=
  proto_chain (S (size (protos w))) (protos w) l.

(** A property read along a chain: the first object that has [k] among
    its own properties gives the value. [Object.prototype] answers
    [__proto__] with the prototype of the value the read started from,
    [receiver_proto]. A name found nowhere reads as [undefined]. *)
Fixpoint lookup_chain (h : gmap loc (gmap string value)) (object_proto : loc)
    (receiver_proto : value) (k : string) (chain : list loc) : value :=
  match chain with
  | [] => VUndefined
  | l :: rest =>
      match h !! l ≫= (.!! k) with
      | Some v => v
      | None =>
          if decide (k = "__proto__" ∧ l = object_proto) then receiver_proto
          else lookup_chain h object_proto receiver_proto k rest
      end
  end.

Definition read_from (w : world) (first : loc) (receiver_proto : value)
    (k : string) : value :=
  lookup_chain (heap w) (Object_prototype (intrinsics w)) receiver_proto k
    (chain_of w first).

(** [v[k]] and [v.k]. *)
Definition get_property (v : value) (k : string) : M value :=
  match v with
  | VUndefined | VNull => throw TypeError
  | VObject l =>
      λ w, (Return (read_from w l
                      (from_option VObject VNull (protos w !! l)) k), w)
  | VString s =>
      λ w, (Return
              (if decide (k = "length")
               then VNumber (Z.of_nat (String.length s))
               else match string_index_props 0 s !! k with
                    | Some c => c
                    | None =>
                        read_from w (String_prototype (intrinsics w))
                          (VObject (String_prototype (intrinsics w))) k
                    end), w)
  | VNumber _ =>
      λ w, (Return (read_from w (Number_prototype (intrinsics w))
                      (VObject (Number_prototype (intrinsics w))) k), w)
  | VBool _ =>
      λ w, (Return (read_from w (Boolean_prototype (intrinsics w))
                      (VObject (Boolean_prototype (intrinsics w))) k), w)
  end.

(** A parameter default [p = {}]. *)
Definition default_param (v : value) (dflt : M value) : M value :=
  match v with
  | VUndefined => dflt
  | _ => ret v
  end.

End JS.

(* ===================================================================== *)
(** ** [src/utils/cookies.js]                                            *)
(* ===================================================================== *)

Module Cookies.
Import JS.

(** The capabilities the helper uses of its [res] argument. *)
Record response := Response {
  res_cookie      : value → value → value → M value;
  res_clearCookie : value → value → M value
}.

(** [cookies.getOptions]. *)
Definition getOptions : M value :=
  node_env <- env_get "NODE_ENV";;
  alloc (<["httpOnly" := VBool true]>
         (<["secure" := VBool (strict_equals node_env (VString "production"))]>
         (<["sameSite" := VString "strict"]>
         (<["maxAge" := VNumber (15 * 60 * 1000)]> ∅)))).

(** [cookies.set]. *)
Definition set (res : response) (name value options : value) : M JS.value :=
  options <- default_param options (alloc ∅);;
  defaults <- getOptions;;
  merged <- object_spread2 defaults options;;
  res_cookie res name value merged;;;
  ret VUndefined.

(** [cookies.clear]. *)
Definition clear (res : response) (name options : value) : M value :=
  options <- default_param options (alloc ∅);;
  defaults <- getOptions;;
  merged <- object_spread2 defaults options;;
  res_clearCookie res name merged.

(** [cookies.get]; [name] is the property key the argument converts to. *)
Definition get (req : value) (name : string) : M value :=
  jar <- get_property req "cookie";;
  get_property jar name.

(** The attribute set [getOptions] builds under environment [e]. *)
Definition default_options (e : gmap string string) : gmap string value :=
  <["httpOnly" := VBool true]>
  (<["secure" := VBool (bool_decide (e !! "NODE_ENV" = Some "production"))]>
  (<["sameSite" := VString "strict"]>
  (<["maxAge" := VNumber 900000]> ∅))).

(** The four attributes of the cookie policy. *)
Definition policy_keys : gset string :=
  {["httpOnly"; "secure"; "sameSite"; "maxAge"]}.

(** The parsed cookie collection [get] reads, when the request has one:
    the object held by the request's [cookie] property. *)
Definition parsed_cookies (w : world) (req : value)
  : option (gmap string value) :=
  match req with
  | VObject lr =>
      match heap w !! lr ≫= (.!! "cookie") with
      | Some (VObject lc) => heap w !! lc
      | _ => None
      end
  | _ => None
  end.

(** The object a read of [field] on the request yields, when it yields
    an object. *)
Definition collection_under (w : world) (req : value) (field : string)
  : option loc :=
  match (get_property req field w).1 with
  | Return (VObject lc) => Some lc
  | _ => None
  end.

(** Whether the request exposes a parsed cookie collection: an object
    under [cookies], where cookie-parsing middleware leaves it, or
    under [cookie], where [get] reads. *)
Definition exposes_collection (w : world) (req : value) : bool :=
  bool_decide (is_Some (collection_under w req "cookies") ∨
               is_Some (collection_under w req "cookie")).


(** A response whose cookie operations write to no object but the one
    they are handed: the object at [l] is left as it is by every call
    that is not given [l] itself. *)
Definition leaves_alone (res : response) (l : loc) : Prop :=
  ∀ (name val arg : value) (w : world),
    arg ≠ VObject l →
    heap (res_cookie res name val arg w).2 !! l = heap w !! l ∧
    heap (res_clearCookie res name arg w).2 !! l = heap w !! l.

(** A test double for [res]: it records the directive it is asked for,
    with the attributes the options object holds at that moment, and
    answers with [self], as a chainable response does. *)
Definition record (k : directive_kind) (name val options self : value)
  : M value :=
  λ w, (Return self,
        {| env := env w; heap := heap w; protos := protos w;
           intrinsics := intrinsics w;
           sent := sent w ++ [Directive k name val
                                (own_props (heap w) options)] |}).

Definition recording_response (self : value) : response :=
  {| res_cookie := λ name val options,
       record StoreCookie name val options self;
     res_clearCookie := λ name options,
       record ExpireCookie name (VString "") options self |}.

(** Sample worlds and requests used to exercise the helper. They share
    a small realm: [Object.prototype] at 10 with four of its members
    (the functions [Object], [toString], [hasOwnProperty] and [valueOf]
    at 14 to 17), the wrappers' prototypes at 11 to 13 and
    [Function.prototype] at 18. *)
Definition sample_realm : realm :=
  {| Object_prototype := 10%positive; String_prototype := 11%positive;
     Number_prototype := 12%positive; Boolean_prototype := 13%positive |}.

Definition realm_heap : gmap loc (gmap string value) :=
  {[ 10%positive := {["constructor" := VObject 14%positive;
                      "toString" := VObject 15%positive;
                      "hasOwnProperty" := VObject 16%positive;
                      "valueOf" := VObject 17%positive]};
     11%positive := ∅; 12%positive := ∅; 13%positive := ∅;
     14%positive := {["name" := VString "Object"]};
     15%positive := {["name" := VString "toString"]};
     16%positive := {["name" := VString "hasOwnProperty"]};
     17%positive := {["name" := VString "valueOf"]};
     18%positive := ∅ ]}.

Definition realm_protos : gmap loc loc :=
  {[ 11%positive := 10%positive; 12%positive := 10%positive;
     13%positive := 10%positive; 14%positive := 18%positive;
     15%positive := 18%positive; 16%positive := 18%positive;
     17%positive := 18%positive; 18%positive := 10%positive ]}.

(** The realm together with [objects], each an ordinary object, whose
    prototype is [Object.prototype]. *)
Definition sample_world (e : gmap string string)
    (objects : gmap loc (gmap string value)) : world :=
  {| env := e;
     heap := objects ∪ realm_heap;
     protos := ((λ _, Object_prototype sample_realm) <$> objects)
               ∪ realm_protos;
     intrinsics := sample_realm;
     sent := [] |}.

Definition production_env : gmap string string :=
  {["NODE_ENV" := "production"]}.

Definition world_dev : world :=
  sample_world {["NODE_ENV" := "development"]}
    {[ 1%positive := {["maxAge" := VNumber 604800000]} ]}.

Definition world_prod : world :=
  sample_world production_env
    {[ 1%positive := {["maxAge" := VNumber 604800000]} ]}.

(** A request as Express with a cookie parser leaves it: the raw header
    under [headers] and the parsed collection under the plural
    [cookies]; nothing under [cookie]. *)
Definition world_express_request : world :=
  sample_world ∅
    {[ 1%positive := {["headers" := VObject 2%positive;
                       "cookies" := VObject 3%positive]};
       2%positive := {["cookie" := VString "token=abc"]};
       3%positive := {["token" := VString "abc"]} ]}.

(** A request that carries a parsed collection under [cookie]. *)
Definition world_cookie_request : world :=
  sample_world ∅
    {[ 1%positive := {["cookie" := VObject 2%positive]};
       2%positive := {["token" := VString "abc"]} ]}.

(** A request with no property of its own: no cookie collection under
    any name. *)
Definition world_bare_request : world :=
  sample_world ∅ {[ 1%positive := ∅ ]}.

End Cookies.

(* ===================================================================== *)
(** ** [src/app.test.js]                                                 *)
(* ===================================================================== *)

Module Harness.

(** *** Values the tests inspect *)

(** What [JSON.parse] can produce, and [undefined] for a property that
    is not there. Numbers are doubles. *)
Inductive jsval :=
| JUndefined
| JNull
| JBool (b : bool)
| JNumber (x : float)
| JString (s : string)
| JArray (xs : list jsval)
| JObject (fs : gmap string jsval).

(** The property names the tests read. None of them names a built-in
    property of a string, a number, a boolean or an array. *)
Inductive field := status | timestamp | uptime | message.

Definition field_name (f : field) : string :=
  match f with
  | status => "status"
  | timestamp => "timestamp"
  | uptime => "uptime"
  | message => "message"
  end.

Inductive transport_error :=
| ECONNREFUSED
| ECONNRESET
| OtherTransportError (code : string).

(** What makes a test fail. *)
Inductive failure :=
| AssertionError
| SyntaxError
| TypeError
| TransportError (e : transport_error).

Inductive outcome (A : Type) :=
| Ok (a : A)
| Failed (f : failure).
Arguments Ok {A} a.
Arguments Failed {A} f.

Definition obind {A B} (m : outcome A) (k : A → outcome B) : outcome B :=
  match m with
  | Ok a => k a
  | Failed f => Failed f
  end.

Declare Scope test_scope.
Delimit Scope test_scope with test.
Notation "x <- m ;; k" := (obind m (λ x, k))
  (at level 100, m at next level, right associativity) : test_scope.
Notation "m ;;; k" := (obind m (λ _, k))
  (at level 100, right associativity) : test_scope.
Open Scope test_scope.

(** [data.f]. *)
Definition member (data : jsval) (f : field) : outcome jsval :=
  match data with
  | JUndefined | JNull => Failed TypeError
  | JObject fs => Ok (default JUndefined (fs !! field_name f))
  | JBool _ | JNumber _ | JString _ | JArray _ => Ok JUndefined
  end.

(** Truthiness, as [assert(v)] tests it. *)
Definition truthy (v : jsval) : bool :=
  match v with
  | JUndefined | JNull => false
  | JBool b => b
  | JNumber x => negb (PrimFloat.eqb x 0%float) && PrimFloat.eqb x x
  | JString s => negb (bool_decide (s = ""))
  | JArray _ | JObject _ => true
  end.

(** [typeof v]. *)
Definition typeof (v : jsval) : string :=
  match v with
  | JUndefined => "undefined"
  | JNull | JArray _ | JObject _ => "object"
  | JBool _ => "boolean"
  | JNumber _ => "number"
  | JString _ => "string"
  end.

(** [assert(b)]. *)
Definition assert (b : bool) : outcome unit :=
  if b then Ok () else Failed AssertionError.

(** [assert.strictEqual(actual, expected)] on values of one type on
    which [Object.is] is equality (status codes, strings). *)
Definition assert_strictEqual {A} `{EqDecision A} (actual expected : A)
  : outcome unit :=
  assert (bool_decide (actual = expected)).

(** [assert.strictEqual(v, s)] for an inspected value against a string
    literal: equal only when [v] is that very string. *)
Definition assert_strictEqual_string (v : jsval) (expected : string)
  : outcome unit :=
  match v with
  | JString s => assert_strictEqual s expected
  | _ => Failed AssertionError
  end.

(** *** The request primitive *)

Definition port : Z := 3001.

Record request_options := RequestOptions {
  hostname    : string;
  opt_port    : Z;
  path        : string;
  method      : string;
  req_headers : list (string * string)
}.

(** What [makeRequest] resolves with. *)
Record response := Response {
  statusCode : Z;
  headers    : list (string * string);
  data       : string
}.

#[global] Instance response_eq_dec : EqDecision response.
Proof. solve_decision. Defined.

Inductive promise :=
| Pending
| Resolved (r : response)
| Rejected (f : failure).

(** [http.request] throws a [TypeError] for a path that contains a
    character outside U+0021 to U+00FF. A string here is a sequence of
    8-bit code units, so the characters it refuses are those below
    U+0021: the space and the control characters. *)
Definition unescaped (c : Ascii.ascii) : bool :=
  (Ascii.N_of_ascii c <? 33)%N.

Fixpoint has_unescaped (path : string) : bool :=
  match path with
  | EmptyString => false
  | String c rest => unescaped c || has_unescaped rest
  end.

Section Runtime.

(** The chunks a response stream delivers, and the string [data += chunk]
    appends for one. *)
Variable Buffer : Type.
Variable Buffer_toString : Buffer → string.

(** [JSON.parse]; [None] when it throws a [SyntaxError]. *)
Variable JSON_parse : string → option jsval.

(** What the transport reports for one request: the call of the
    response callback, the stream's ['data'] and ['end'] events, the
    request's ['error'] event, and the loss of the connection while
    the response is arriving, which is reported on the response
    stream (['aborted'], ['close']). *)
Inductive event :=
| OnResponse (code : Z) (hs : list (string * string))
| OnData (chunk : Buffer)
| OnEnd
| OnError (e : transport_error)
| OnAborted.

(** One call of [makeRequest] in flight: the requests it has issued
    with [http.request], whether [req.end()] was called, the response
    whose listeners are installed with the [data] collected for it, and
    the promise it returned. *)
Record request_state := RequestState {
  issued  : list request_options;
  flushed : bool;
  res     : option (Z * list (string * string));
  body    : string;
  settled : promise
}.

(** [resolve] and [reject] settle a promise only while it is pending. *)
Definition settle (p : promise) (st : request_state) : request_state :=
  match settled st with
  | Pending =>
      {| issued := issued st; flushed := flushed st; res := res st;
         body := body st; settled := p |}
  | _ => st
  end.

(** [makeRequest(path)] up to its [return]: the options are built and
    handed to [http.request]. When it throws, inside the promise's
    executor, the promise is rejected with what it threw and nothing
    after it runs; otherwise the request is created with its listeners
    and flushed. *)
Definition makeRequest (path : string) : request_state :=
  let options :=
    {| hostname := "localhost";
       opt_port := port;
       path := path;
       method := "GET";
       req_headers := [("Content-Type", "application/json")] |} in
  if has_unescaped path then
    {| issued := []; flushed := false; res := None; body := "";
       settled := Rejected TypeError |}
  else
    {| issued := [options]; flushed := true; res := None; body := "";
       settled := Pending |}.

(** The listeners [makeRequest] installed, run on one event. *)
Definition on_event (st : request_state) (ev : event) : request_state :=
  match ev with
  | OnResponse code hs =>
      {| issued := issued st; flushed := flushed st;
         res := Some (code, hs); body := ""; settled := settled st |}
  | OnData chunk =>
      match res st with
      | Some _ =>
          {| issued := issued st; flushed := flushed st; res := res st;
             body := body st +:+ Buffer_toString chunk;
             settled := settled st |}
      | None => st
      end
  | OnEnd =>
      match res st with
      | Some (code, hs) =>
          settle (Resolved {| statusCode := code; headers := hs;
                              data := body st |}) st
      | None => st
      end
  | OnError e => settle (Rejected (TransportError e)) st
  | OnAborted => st
  end.

Definition run_events (st : request_state) (evs : list event)
  : request_state := foldl on_event st evs.

(** [await makeRequest(path)] once the promise has settled. *)
Definition awaited (st : request_state) : option (outcome response) :=
  match settled st with
  | Pending => None
  | Resolved r => Some (Ok r)
  | Rejected f => Some (Failed f)
  end.

(** *** The three tests, from the response on *)

Definition parse (text : string) : outcome jsval :=
  match JSON_parse text with
  | Some v => Ok v
  | None => Failed SyntaxError
  end.

(** ['should respond to health check'] *)
Definition health_check (response : response) : outcome unit :=
  assert_strictEqual (statusCode response) 200%Z;;;
  data <- parse (data response);;
  s <- member data status;;
  assert_strictEqual_string s "OK";;;
  t <- member data timestamp;;
  assert (truthy t);;;
  u <- member data uptime;;
  assert (bool_decide (typeof u = "number")).

(** ['should respond to root endpoint'] *)
Definition root_endpoint (response : response) : outcome unit :=
  assert_strictEqual (statusCode response) 200%Z;;;
  assert_strictEqual (data response) "Hello from acquisitions api".

(** ['should respond to API endpoint'] *)
Definition api_endpoint (response : response) : outcome unit :=
  assert_strictEqual (statusCode response) 200%Z;;;
  data <- parse (data response);;
  m <- member data message;;
  assert_strictEqual_string m "Aquisitions API is running!".

(** The tests of the group in source order: the path each requests and
    what it asserts of the response. *)
Definition tests : list (string * (response → outcome unit)) :=
  [("/health", health_check); ("/", root_endpoint); ("/api", api_endpoint)].

(** *** The group's lifecycle *)

Inductive lifecycle := NotStarted | Listening | Closed.

(** What a run of the group leaves behind, in order. *)
Inductive entry :=
| Bound (p : Z)
| Ran (path : string) (r : outcome unit)
| Released (p : Z).

(** The group's [server] variable ([None] while it is [undefined]), the
    ports in use on the host, and the record of the run so far. *)
Record session := Session {
  server : option lifecycle;
  bound  : gset Z;
  log    : list entry
}.

(** The [before] hook: create the server and listen on the test port.
    Its promise resolves only once the port is bound; on a port already
    in use the hook does not complete. *)
Definition before (s : session) : option session :=
  let s0 := {| server := Some NotStarted; bound := bound s; log := log s |} in
  if decide (port ∈ bound s0) then None
  else Some {| server := Some Listening;
               bound := {[port]} ∪ bound s0;
               log := log s0 ++ [Bound port] |}.

(** The [after] hook: [if (server)] close it. Closing a listening
    server releases its port; closing one that is not listening only
    calls back. *)
Definition after (s : session) : session :=
  match server s with
  | Some Listening =>
      {| server := Some Closed;
         bound := bound s ∖ {[port]};
         log := log s ++ [Released port] |}
  | Some _ => s
  | None => s
  end.

(** What a request for [path] meets: the application's answer while the
    group's server listens, a refused connection otherwise. *)
Definition network (app : string → list event) (s : session) (path : string)
  : list event :=
  match server s with
  | Some Listening => app path
  | _ => [OnError ECONNREFUSED]
  end.

(** One test: request its path, await the promise, run the assertions.
    [None] when the promise never settles. *)
Definition run_test (app : string → list event) (s : session)
    (t : string * (response → outcome unit)) : option (outcome unit) :=
  r ← awaited (run_events (makeRequest t.1) (network app s t.1));
  Some (response <- r;; t.2 response).

(** The tests in order. A failed test is recorded and the next one
    runs; a test that never completes holds up the rest. *)
Fixpoint run_tests (app : string → list event)
    (ts : list (string * (response → outcome unit))) (s : session)
  : option (list (outcome unit) * session) :=
  match ts with
  | [] => Some ([], s)
  | t :: ts' =>
      r ← run_test app s t;
      let s' := {| server := server s; bound := bound s;
                   log := log s ++ [Ran t.1 r] |} in
      '(rs, s'') ← run_tests app ts' s';
      Some (r :: rs, s'')
  end.

(** [describe] as the test runner executes a group: the [before] hook
    to completion, then the tests, then the [after] hook. *)
Definition describe (before_hook : session → option session)
    (after_hook : session → session)
    (ts : list (string * (response → outcome unit)))
    (app : string → list event) (s : session)
  : option (list (outcome unit) * session) :=
  s1 ← before_hook s;
  '(rs, s2) ← run_tests app ts s1;
  Some (rs, after_hook s2).

(** [describe('App Health Tests', ...)]. *)
Definition run_group (app : string → list event) (s : session)
  : option (list (outcome unit) * session) :=
  describe before after tests app s.

End Runtime.

Arguments OnResponse {Buffer} code hs.
Arguments OnData {Buffer} chunk.
Arguments OnEnd {Buffer}.
Arguments OnError {Buffer} e.
Arguments OnAborted {Buffer}.
Arguments on_event {Buffer} Buffer_toString st ev.
Arguments run_events {Buffer} Buffer_toString st evs.
Arguments network {Buffer} app s path.
Arguments run_test {Buffer} Buffer_toString app s t.
Arguments run_tests {Buffer} Buffer_toString app ts s.
Arguments describe {Buffer} Buffer_toString before_hook after_hook ts app s.
Arguments run_group {Buffer} Buffer_toString JSON_parse app s.

(** The events whose listeners call neither [resolve] nor [reject]. *)
Definition quiet {Buffer} (ev : event Buffer) : bool :=
  match ev with
  | OnResponse _ _ | OnData _ | OnAborted => true
  | OnEnd | OnError _ => false
  end.

(** The characters of the bodies a stream delivered, in order of
    arrival. *)
Definition concat_chunks {Buffer} (Buffer_toString : Buffer → string)
    (chunks : list Buffer) : string :=
  foldr (λ chunk rest, Buffer_toString chunk +:+ rest) "" chunks.

(** A stand-in application for trying the harness: chunks are strings,
    the root path answers in two chunks, any other path is not found. *)
Definition sample_app (path : string) : list (event string) :=
  if decide (path = "/") then
    [OnResponse 200 [("content-type", "text/html; charset=utf-8")];
     OnData "Hello from "; OnData "acquisitions api"; OnEnd]
  else
    [OnResponse 404 []; OnData "Not Found"; OnEnd].

(** A parser that accepts nothing, for the same purpose. *)
Definition reject_all (text : string) : option jsval := None.

Definition fresh_session : session :=
  {| server := None; bound := ∅; log := [] |}.

(** The text [{"status":"OK","timestamp":"2025-01-01T00:00:00.000Z","uptime":12.5}]
    and a parser that knows this one text, to try the health test. *)
Definition dquote : string :=
  String (Ascii.Ascii false true false false false true false false) "".

Definition health_body : string :=
  "{" +:+ dquote +:+ "status" +:+ dquote +:+ ":" +:+ dquote +:+ "OK"
  +:+ dquote +:+ "," +:+ dquote +:+ "timestamp" +:+ dquote +:+ ":"
  +:+ dquote +:+ "2025-01-01T00:00:00.000Z" +:+ dquote +:+ ","
  +:+ dquote +:+ "uptime" +:+ dquote +:+ ":12.5}".

Definition parse_health_only (text : string) : option jsval :=
  if decide (text = health_body) then
    Some (JObject (<["status" := JString "OK"]>
                   (<["timestamp" := JString "2025-01-01T00:00:00.000Z"]>
                   (<["uptime" := JNumber 12.5%float]> ∅))))
  else None.

End Harness.

Module CookiesSpec.
Import JS Cookies.

Lemma strict_equals_production (e : gmap string string) :
  strict_equals (from_option VString VUndefined (e !! "NODE_ENV"))
                (VString "production")
  = bool_decide (e !! "NODE_ENV" = Some "production").
Proof.
  unfold strict_equals.
  destruct (e !! "NODE_ENV") as [s|]; cbn [from_option];
    repeat case_bool_decide; congruence.
Qed.

Lemma getOptions_run (w : world) :
  getOptions w
  = (Return (VObject (fresh (dom (heap w)))),
     store_object (fresh (dom (heap w))) (default_options (env w)) w).
Proof.
  unfold getOptions, bind, env_get, alloc, default_options.
  rewrite strict_equals_production. reflexivity.
Qed.

Lemma alloc_old (h : gmap loc (gmap string value)) o l :
  l ∈ dom h → <[fresh (dom h) := o]> h !! l = h !! l.
Proof.
  intros Hl. apply lookup_insert_ne. intros <-.
  exact (is_fresh (dom h) Hl).
Qed.

Lemma fresh_not_in (h : gmap loc (gmap string value)) :
  h !! fresh (dom h) = None.
Proof. apply not_elem_of_dom, is_fresh. Qed.

(** Spreading the overrides after the defaults were allocated reads the
    same properties as before the allocation, up to the defaults. *)
Lemma own_props_after_alloc (h : gmap loc (gmap string value)) options D :
  own_props (<[fresh (dom h) := D]> h) options ∪ D
  = own_props h options ∪ D.
Proof.
  destruct options as [| | | | |l]; try reflexivity. cbn [own_props].
  destruct (decide (fresh (dom h) = l)) as [<-|Hne].
  - rewrite lookup_insert_eq, fresh_not_in. cbn.
    rewrite (left_id_L ∅ (∪)). apply (idemp_L (∪)).
  - by rewrite lookup_insert_ne.
Qed.

Lemma own_props_handed (h : gmap loc (gmap string value)) (l : loc)
    (o : gmap string value) :
  h !! l = Some o → own_props h (VObject l) = o.
Proof. intros H. cbn. by rewrite H. Qed.

(** The body shared by [set] and [clear] once [options] is settled. *)
Lemma merge_run {A} (options : value) (k : value → M A) (w : world) :
  let ld := fresh (dom (heap w)) in
  let w1 := store_object ld (default_options (env w)) w in
  let lm := fresh (dom (heap w1)) in
  (defaults <- getOptions;; merged <- object_spread2 defaults options;;
   k merged) w
  = k (VObject lm)
      (store_object lm
         (own_props (heap w) options ∪ default_options (env w)) w1).
Proof.
  intros ld w1 lm. unfold bind at 1. rewrite getOptions_run.
  unfold bind, object_spread2, alloc, copy_data_properties.
  fold ld. fold w1. fold lm. f_equal. f_equal.
  rewrite (right_id_L ∅ (∪)). subst w1 ld. cbn [store_object heap].
  rewrite (own_props_handed _ (fresh (dom (heap w))) (default_options (env w)))
    by apply lookup_insert_eq.
  apply own_props_after_alloc.
Qed.

(** What [set] and [clear] have done when they reach the response: one
    new object, holding the overrides' own properties laid over the
    defaults, is what the response is handed; nothing else has changed. *)
Lemma handed_over (options : value) (w : world) :
  ∃ (lm : loc) (w' : world),
    (∀ res name val,
       set res name val options w
       = (res_cookie res name val (VObject lm);;; ret VUndefined) w') ∧
    (∀ res name,
       clear res name options w = res_clearCookie res name (VObject lm) w') ∧
    heap w' !! lm
      = Some (own_props (heap w) options ∪ default_options (env w)) ∧
    (lm ∉ dom (heap w)) ∧
    env w' = env w ∧ sent w' = sent w ∧
    (∀ l, l ∈ dom (heap w) → heap w' !! l = heap w !! l).
Proof.
  destruct (decide (options = VUndefined)) as [->|Hopt].
  - (* the parameter default: a new empty object stands for the overrides *)
    set (l0 := fresh (dom (heap w))).
    set (w0 := store_object l0 ∅ w).
    set (ld := fresh (dom (heap w0))).
    set (w1 := store_object ld (default_options (env w0)) w0).
    set (lm := fresh (dom (heap w1))).
    assert (Hl0 : l0 ∉ dom (heap w)) by apply is_fresh.
    assert (Hld : ld ∉ dom (heap w0)) by apply is_fresh.
    assert (Hlm : lm ∉ dom (heap w1)) by apply is_fresh.
    unfold w1, w0 in Hlm. unfold w0 in Hld. cbn [store_object heap] in Hld, Hlm.
    rewrite !dom_insert_L in Hlm. rewrite dom_insert_L in Hld.
    exists lm. eexists. split; [|split; [|split; [|split; [|split; [|split]]]]].
    + intros res name val. unfold set, default_param.
      unfold bind at 1. unfold alloc at 1. cbn zeta. fold l0. fold w0.
      apply (merge_run (VObject l0)
               (λ m, res_cookie res name val m;;; ret VUndefined) w0).
    + intros res name. unfold clear, default_param.
      unfold bind at 1. unfold alloc at 1. cbn zeta. fold l0. fold w0.
      apply (merge_run (VObject l0) (λ m, res_clearCookie res name m) w0).
    + cbn [store_object heap]. rewrite lookup_insert_eq. f_equal.
      unfold w0. cbn [own_props store_object heap env].
      by rewrite lookup_insert_eq.
    + set_solver.
    + reflexivity.
    + reflexivity.
    + intros l Hl. unfold w0. cbn [store_object heap].
      rewrite !lookup_insert_ne; [done| | |]; set_solver.
  - set (ld := fresh (dom (heap w))).
    set (w1 := store_object ld (default_options (env w)) w).
    set (lm := fresh (dom (heap w1))).
    assert (Hld : ld ∉ dom (heap w)) by apply is_fresh.
    assert (Hlm : lm ∉ dom (heap w1)) by apply is_fresh.
    unfold w1 in Hlm. cbn [store_object heap] in Hlm.
    rewrite dom_insert_L in Hlm.
    assert (Hdp : ∀ d, default_param options d = ret options)
      by (by destruct options).
    exists lm. eexists. split; [|split; [|split; [|split; [|split; [|split]]]]].
    + intros res name val. unfold set. rewrite Hdp.
      apply (merge_run options
               (λ m, res_cookie res name val m;;; ret VUndefined) w).
    + intros res name. unfold clear. rewrite Hdp.
      apply (merge_run options (λ m, res_clearCookie res name m) w).
    + cbn [store_object heap]. by rewrite lookup_insert_eq.
    + set_solver.
    + reflexivity.
    + reflexivity.
    + intros l Hl. cbn [store_object heap].
      rewrite !lookup_insert_ne; [done| |]; set_solver.
Qed.

Lemma default_options_dom (e : gmap string string) :
  dom (default_options e) = policy_keys.
Proof.
  unfold default_options, policy_keys.
  rewrite !dom_insert_L, dom_empty_L. set_solver.
Qed.

(** A read finds an own property of the object it starts from. *)
Lemma read_own (w : world) (l : loc) (rp : value) (k : string) (v : value) :
  heap w !! l ≫= (.!! k) = Some v → read_from w l rp k = v.
Proof.
  intros Hown. unfold read_from, chain_of. cbn [proto_chain lookup_chain].
  by rewrite Hown.
Qed.



(** A property read changes nothing, whether it returns or throws. *)
Lemma get_property_world (v : value) (k : string) (w : world) :
  (get_property v k w).2 = w.
Proof. by destruct v. Qed.

(** A property read throws only a [TypeError], and only on [undefined]
    and [null]. *)
Lemma get_property_throws (v : value) (k : string) (w : world) (e : exn) :
  (get_property v k w).1 = Throw e ↔
  e = TypeError ∧ (v = VUndefined ∨ v = VNull).
Proof.
  destruct v; cbn; split;
    try (intros [= <-]; auto); try discriminate;
    try (intros [_ [H|H]]; discriminate H);
    try (by intros [-> _]).
Qed.

(** [get] is the read of [cookie] followed by the read of the name. *)
Lemma get_unfold (req : value) (name : string) (w : world) :
  get req name w
  = match (get_property req "cookie" w).1 with
    | Return jar => get_property jar name w
    | Throw e => (Throw e, w)
    end.
Proof.
  unfold get, bind.
  pose proof (get_property_world req "cookie" w) as Hw.
  destruct (get_property req "cookie" w) as [[jar|e] w']; cbn in *;
    by subst w'.
Qed.

(** [get] on a request that carries the collection as its own [cookie]
    property returns what the collection holds under the name. *)
Lemma get_own_property (w : world) (req : value) (jar : gmap string value)
    (name : string) (v : value) :
  parsed_cookies w req = Some jar →
  jar !! name = Some v →
  get req name w = (Return v, w).
Proof.
  unfold parsed_cookies. destruct req as [| | | | |lr]; try discriminate.
  destruct (heap w !! lr ≫= (.!! "cookie")) as [[| | | | |lc]|] eqn:Hreq;
    try discriminate.
  intros Hjar Hname. rewrite get_unfold. cbn [get_property fst].
  rewrite (read_own w lr _ "cookie" (VObject lc) Hreq).
  cbn [get_property]. f_equal. f_equal. apply read_own. by rewrite Hjar.
Qed.

(** The world a call of a response method leaves, under a [bind]. *)
Lemma bind_world {A B} (m : M A) (k : A → M B) (w : world) (P : world → Prop) :
  P (m w).2 → (∀ a w', P w' → P (k a w').2) → P (bind m k w).2.
Proof.
  unfold bind. destruct (m w) as [[a|e] w']; cbn; auto.
Qed.

(* --------------------------------------------------------------------- *)
(** *** The claims about the cookie helper                               *)
(* --------------------------------------------------------------------- *)

(** C1. Every call of [getOptions] returns, without throwing, a new
    object whose four attributes are [httpOnly = true],
    [sameSite = "strict"], [maxAge = 900000] and [secure], which is true
    exactly when [NODE_ENV] is ["production"] at the time of the call
    (false for any other value and when unset). The call changes
    nothing else: the environment, the recorded directives and every
    object that already existed are as before. *)
Theorem getOptions_attribute_set (w : world) :
  ∃ (l : loc) (w' : world) (o : gmap string value),
    getOptions w = (Return (VObject l), w') ∧
    heap w' !! l = Some o ∧
    o !! "httpOnly" = Some (VBool true) ∧
    o !! "sameSite" = Some (VString "strict") ∧
    o !! "maxAge" = Some (VNumber 900000) ∧
    o !! "secure"
      = Some (VBool (bool_decide (env w !! "NODE_ENV" = Some "production"))) ∧
    dom o = policy_keys ∧
    (l ∉ dom (heap w)) ∧
    env w' = env w ∧ sent w' = sent w ∧
    (∀ l', l' ∈ dom (heap w) → heap w' !! l' = heap w !! l').
Proof.
  rewrite getOptions_run.
  eexists _, _, (default_options (env w)). cbn [heap env sent].
  split_and!; try reflexivity.
  - apply lookup_insert_eq.
  - apply is_fresh.
  - intros l' Hl'. by apply alloc_old.
Qed.

(** C2, as the code has it. When the request exposes no parsed cookie
    collection and is [undefined] or [null], or its [cookie] property
    reads as [undefined] or [null], [get] throws a [TypeError] and
    changes nothing. *)
Theorem get_without_collection_throws
    (w : world) (req : value) (name : string) :
  exposes_collection w req = false →
  req = VUndefined ∨ req = VNull ∨
    (get_property req "cookie" w).1 = Return VUndefined ∨
    (get_property req "cookie" w).1 = Return VNull →
  get req name w = (Throw TypeError, w).
Proof.
  intros _ Hnullish. rewrite get_unfold.
  destruct Hnullish as [-> | [-> | [-> | ->]]]; reflexivity.
Qed.

Lemma get_without_collection_throws_witness :
  get (VObject 1%positive) "token" world_bare_request
  = (Throw TypeError, world_bare_request).
Proof.
  apply (get_without_collection_throws world_bare_request
           (VObject 1%positive) "token").
  - vm_compute. reflexivity.
  - right. right. left. vm_compute. reflexivity.
Defined.

(** C2, as the specification words it, fails: a request with no
    property of its own exposes no parsed cookie collection, and [get]
    throws a [TypeError] on it instead of yielding [undefined]. *)
Lemma get_without_collection_counterexample :
  exposes_collection world_bare_request (VObject 1%positive) = false ∧
  get (VObject 1%positive) "token" world_bare_request
  = (Throw TypeError, world_bare_request) ∧
  (get (VObject 1%positive) "token" world_bare_request).1
  ≠ Return VUndefined.
Proof.
  split; [vm_compute; reflexivity|].
  split; [vm_compute; reflexivity|]. vm_compute. discriminate.
Qed.

(** C3. Whatever overrides [set] and [clear] are given, the object they
    hand to the response holds, for every key the overrides have, the
    overrides' value, and for every other key the default's value. *)
Theorem override_precedence (options : value) (w : world) :
  ∃ (lm : loc) (w' : world) (merged : gmap string value),
    (∀ res name val,
       set res name val options w
       = (res_cookie res name val (VObject lm);;; ret VUndefined) w') ∧
    (∀ res name,
       clear res name options w = res_clearCookie res name (VObject lm) w') ∧
    heap w' !! lm = Some merged ∧
    ∀ k, match own_props (heap w) options !! k with
         | Some v => merged !! k = Some v
         | None => merged !! k = default_options (env w) !! k
         end.
Proof.
  destruct (handed_over options w) as (lm & w' & Hset & Hclear & Hm & _).
  exists lm, w', (own_props (heap w) options ∪ default_options (env w)).
  split_and!; try assumption.
  intros k. destruct (own_props (heap w) options !! k) as [v|] eqn:Hk.
  - by apply lookup_union_Some_l.
  - by apply lookup_union_r.
Qed.




(** C8. Two calls of [getOptions] under the same [NODE_ENV] return
    objects with the same four attributes, and each call builds its
    own object: the second result is not the first one's object. *)
Theorem getOptions_twice (w1 w2 : world) :
  env w2 !! "NODE_ENV" = env w1 !! "NODE_ENV" →
  ∃ (l1 l2 : loc) (w1' w2' : world) (o1 o2 : gmap string value),
    getOptions w1 = (Return (VObject l1), w1') ∧
    getOptions w2 = (Return (VObject l2), w2') ∧
    heap w1' !! l1 = Some o1 ∧ heap w2' !! l2 = Some o2 ∧
    o1 !! "httpOnly" = o2 !! "httpOnly" ∧
    o1 !! "secure" = o2 !! "secure" ∧
    o1 !! "sameSite" = o2 !! "sameSite" ∧
    o1 !! "maxAge" = o2 !! "maxAge" ∧
    dom o1 = policy_keys ∧ dom o2 = policy_keys ∧
    (l1 ∈ dom (heap w2) → l2 ≠ l1).
Proof.
  intros Henv.
  exists (fresh (dom (heap w1))), (fresh (dom (heap w2))).
  eexists _, _, (default_options (env w1)), (default_options (env w2)).
  rewrite !getOptions_run. cbn [heap].
  split_and!; try reflexivity; try apply lookup_insert_eq;
    try apply default_options_dom.
  - unfold default_options. by rewrite Henv.
  - intros Hin Heq. rewrite <- Heq in Hin. exact (is_fresh _ Hin).
Qed.

Lemma getOptions_twice_witness :
  ∃ (l1 l2 : loc) (w1' w2' : world) (o1 o2 : gmap string value),
    getOptions world_prod = (Return (VObject l1), w1') ∧
    getOptions (getOptions world_prod).2 = (Return (VObject l2), w2') ∧
    heap w1' !! l1 = Some o1 ∧ heap w2' !! l2 = Some o2 ∧
    o1 !! "httpOnly" = o2 !! "httpOnly" ∧
    o1 !! "secure" = o2 !! "secure" ∧
    o1 !! "sameSite" = o2 !! "sameSite" ∧
    o1 !! "maxAge" = o2 !! "maxAge" ∧
    dom o1 = policy_keys ∧ dom o2 = policy_keys ∧
    (l1 ∈ dom (heap (getOptions world_prod).2) → l2 ≠ l1).
Proof.
  apply (getOptions_twice world_prod (getOptions world_prod).2).
  reflexivity.
Defined.

(** C9. Whatever overrides [set] and [clear] are given, the object they
    hand to the response has all four policy keys: an override can
    change a policy key's value but cannot take the key away. *)
Theorem merged_keeps_policy_keys (options : value) (w : world) :
  ∃ (lm : loc) (w' : world) (merged : gmap string value),
    (∀ res name val,
       set res name val options w
       = (res_cookie res name val (VObject lm);;; ret VUndefined) w') ∧
    (∀ res name,
       clear res name options w = res_clearCookie res name (VObject lm) w') ∧
    heap w' !! lm = Some merged ∧
    policy_keys ⊆ dom merged.
Proof.
  destruct (handed_over options w) as (lm & w' & Hset & Hclear & Hm & _).
  exists lm, w', (own_props (heap w) options ∪ default_options (env w)).
  split_and!; try assumption.
  rewrite dom_union_L, default_options_dom. apply union_subseteq_r.
Qed.

(** C10. [set] and [clear] do not write to the overrides object: with a
    response that itself writes to no object but the one it is handed,
    the overrides object holds after the call exactly the properties it
    held before; what the response is handed is a new object, not the
    overrides object. *)
Theorem overrides_left_intact
    (res : response) (name val : value) (lo : loc)
    (ov : gmap string value) (w : world) :
  heap w !! lo = Some ov →
  leaves_alone res lo →
  heap (set res name val (VObject lo) w).2 !! lo = Some ov ∧
  heap (clear res name (VObject lo) w).2 !! lo = Some ov ∧
  ∃ (lm : loc) (w' : world),
    lm ≠ lo ∧ heap w' !! lo = Some ov ∧
    set res name val (VObject lo) w
    = (res_cookie res name val (VObject lm);;; ret VUndefined) w' ∧
    clear res name (VObject lo) w = res_clearCookie res name (VObject lm) w'.
Proof.
  intros Hov Hres.
  destruct (handed_over (VObject lo) w)
    as (lm & w' & Hset & Hclear & _ & Hfresh & _ & _ & Hold).
  assert (Hin : lo ∈ dom (heap w)) by (apply elem_of_dom; eauto).
  assert (Hne : lm ≠ lo) by (intros ->; contradiction).
  assert (Harg : VObject lm ≠ VObject lo) by congruence.
  assert (Hov' : heap w' !! lo = Some ov) by (rewrite Hold; assumption).
  split; [|split].
  - rewrite Hset.
    apply (bind_world _ _ _ (λ x, heap x !! lo = Some ov)).
    + destruct (Hres name val (VObject lm) w' Harg) as [-> _]. exact Hov'.
    + intros _ w'' Hw''. exact Hw''.
  - rewrite Hclear.
    destruct (Hres name val (VObject lm) w' Harg) as [_ ->]. exact Hov'.
  - exists lm, w'. auto.
Qed.

Lemma overrides_left_intact_witness :
  heap (set (recording_response VNull) (VString "token") (VString "abc")
          (VObject 1%positive) world_dev).2 !! 1%positive
  = Some {["maxAge" := VNumber 604800000]} ∧
  heap (clear (recording_response VNull) (VString "token")
          (VObject 1%positive) world_dev).2 !! 1%positive
  = Some {["maxAge" := VNumber 604800000]} ∧
  ∃ (lm : loc) (w' : world),
    lm ≠ 1%positive ∧
    heap w' !! 1%positive = Some {["maxAge" := VNumber 604800000]} ∧
    set (recording_response VNull) (VString "token") (VString "abc")
      (VObject 1%positive) world_dev
    = (res_cookie (recording_response VNull) (VString "token")
         (VString "abc") (VObject lm);;; ret VUndefined) w' ∧
    clear (recording_response VNull) (VString "token")
      (VObject 1%positive) world_dev
    = res_clearCookie (recording_response VNull) (VString "token")
        (VObject lm) w'.
Proof.
  apply (overrides_left_intact (recording_response VNull) (VString "token")
           (VString "abc") 1%positive {["maxAge" := VNumber 604800000]}
           world_dev).
  - reflexivity.
  - intros n v a w0 _. split; reflexivity.
Defined.

(** The helper run against the recording response: a week-long
    [maxAge] override replaces the default, the other three attributes
    are the defaults. *)
Example set_records_merged_attributes :
  sent (set (recording_response VNull) (VString "token") (VString "abc")
          (VObject 1%positive) world_dev).2
  = [Directive StoreCookie (VString "token") (VString "abc")
       (<["httpOnly" := VBool true]>
        (<["secure" := VBool false]>
        (<["sameSite" := VString "strict"]>
        (<["maxAge" := VNumber 604800000]> ∅))))].
Proof. vm_compute. reflexivity. Qed.

(** Reads that reach the prototype: an inherited member, the
    prototype itself, and a name found nowhere. *)
Example inherited_reads :
  (get_property (VObject 2%positive) "constructor" world_cookie_request).1
  = Return (VObject 14%positive) ∧
  (get_property (VObject 2%positive) "__proto__" world_cookie_request).1
  = Return (VObject 10%positive) ∧
  (get_property (VString "token=abc") "valueOf" world_cookie_request).1
  = Return (VObject 17%positive) ∧
  (get_property (VObject 2%positive) "session" world_cookie_request).1
  = Return VUndefined.
Proof. split_and!; vm_compute; reflexivity. Qed.

(** The parsed collection of an Express request sits under [cookies];
    [get] reads [cookie]. *)
Example get_on_express_request :
  exposes_collection world_express_request (VObject 1%positive) = true ∧
  get (VObject 1%positive) "token" world_express_request
  = (Throw TypeError, world_express_request).
Proof. split; vm_compute; reflexivity. Qed.

Example getOptions_outside_production :
  heap (getOptions world_dev).2 !! 19%positive
  = Some (<["httpOnly" := VBool true]>
          (<["secure" := VBool false]>
          (<["sameSite" := VString "strict"]>
          (<["maxAge" := VNumber 900000]> ∅)))) ∧
  (heap (getOptions world_cookie_request).2 !! 19%positive)
    ≫= (.!! "secure") = Some (VBool false).
Proof. split; vm_compute; reflexivity. Qed.

Example getOptions_in_production :
  (getOptions world_prod).1 = Return (VObject 19%positive) ∧
  heap (getOptions world_prod).2 !! 19%positive
  = Some (<["httpOnly" := VBool true]>
          (<["secure" := VBool true]>
          (<["sameSite" := VString "strict"]>
          (<["maxAge" := VNumber 900000]> ∅)))).
Proof. split; vm_compute; reflexivity. Qed.

End CookiesSpec.

Module HarnessSpec.
Import Harness.

Lemma append_cons (a : Ascii.ascii) (s t : string) :
  String a s +:+ t = String a (s +:+ t).
Proof. reflexivity. Qed.

Lemma append_assoc (s t u : string) : (s +:+ t) +:+ u = s +:+ (t +:+ u).
Proof.
  induction s as [|a s IH]; [reflexivity|].
  by rewrite !append_cons, IH.
Qed.

Lemma append_empty_r (s : string) : s +:+ "" = s.
Proof.
  induction s as [|a s IH]; [reflexivity|]. by rewrite append_cons, IH.
Qed.

Lemma obind_ok {A B} (m : outcome A) (k : A → outcome B) (b : B) :
  obind m k = Ok b ↔ ∃ a, m = Ok a ∧ k a = Ok b.
Proof.
  destruct m as [a|f]; cbn.
  - split; [eauto|]. by intros (a' & [= <-] & H).
  - split; [discriminate|]. by intros (a' & [=] & _).
Qed.

Lemma assert_ok (b : bool) : assert b = Ok () ↔ b = true.
Proof. destruct b; cbn; split; congruence. Qed.

Lemma assert_strictEqual_ok {A} `{EqDecision A} (x y : A) :
  assert_strictEqual x y = Ok () ↔ x = y.
Proof.
  unfold assert_strictEqual. rewrite assert_ok. apply bool_decide_eq_true.
Qed.

Lemma assert_strictEqual_string_ok (v : jsval) (s : string) :
  assert_strictEqual_string v s = Ok () ↔ v = JString s.
Proof.
  destruct v; cbn; try (split; congruence).
  rewrite assert_strictEqual_ok. split; congruence.
Qed.

(** Reading a field succeeds with something other than [undefined]
    only on an object that has the field. *)
Lemma member_defined (d v : jsval) (f : field) :
  v ≠ JUndefined →
  member d f = Ok v ↔ ∃ fs, d = JObject fs ∧ fs !! field_name f = Some v.
Proof.
  intros Hv. destruct d; cbn; try (split; [congruence|by intros (? & [=] & _)]).
  split.
  - intros [= H]. exists fs. split; [done|].
    destruct (fs !! field_name f); cbn in H; congruence.
  - intros (fs' & [= <-] & ->). reflexivity.
Qed.

Lemma truthy_defined (v : jsval) : truthy v = true → v ≠ JUndefined.
Proof. by destruct v. Qed.

Lemma typeof_number (v : jsval) : typeof v = "number" ↔ ∃ x, v = JNumber x.
Proof.
  destruct v; cbn; split; try discriminate; try by intros [? [=]].
  eauto.
Qed.

Section Claims.

Variable Buffer : Type.
Variable Buffer_toString : Buffer → string.
Variable JSON_parse : string → option jsval.

Lemma parse_ok (text : string) (d : jsval) :
  parse JSON_parse text = Ok d ↔ JSON_parse text = Some d.
Proof.
  unfold parse. destruct (JSON_parse text); split; congruence.
Qed.

(** While the response's listeners are installed and the promise is
    pending, ['data'] events append to the collected body and change
    nothing else. *)
Lemma run_data (st : request_state) (h : Z * list (string * string))
    (chunks : list Buffer) :
  res st = Some h →
  run_events Buffer_toString st (map OnData chunks)
  = {| issued := issued st; flushed := flushed st; res := res st;
       body := body st +:+ concat_chunks Buffer_toString chunks;
       settled := settled st |}.
Proof.
  revert st. induction chunks as [|c chunks IH]; intros st Hres.
  - cbn. rewrite append_empty_r. by destruct st.
  - cbn [map run_events foldl on_event]. rewrite Hres.
    unfold run_events in IH. rewrite IH by reflexivity.
    cbn [issued flushed res body settled concat_chunks foldr].
    by rewrite append_assoc.
Qed.

Lemma run_events_app (st : request_state) (evs evs' : list (event Buffer)) :
  run_events Buffer_toString st (evs ++ evs')
  = run_events Buffer_toString (run_events Buffer_toString st evs) evs'.
Proof. apply foldl_app. Qed.

Lemma settle_issued (p : promise) (st : request_state) :
  issued (settle p st) = issued st.
Proof. unfold settle. by destruct (settled st). Qed.

Lemma on_event_issued (st : request_state) (ev : event Buffer) :
  issued (on_event Buffer_toString st ev) = issued st.
Proof.
  destruct ev as [code hs|chunk| |e|]; cbn.
  - reflexivity.
  - by destruct (res st).
  - destruct (res st) as [[code hs]|]; [apply settle_issued|reflexivity].
  - apply settle_issued.
  - reflexivity.
Qed.

(** No event makes [makeRequest] issue a request. *)
Lemma run_events_issued (st : request_state) (evs : list (event Buffer)) :
  issued (run_events Buffer_toString st evs) = issued st.
Proof.
  revert st. induction evs as [|ev evs IH]; intros st; [reflexivity|].
  cbn. unfold run_events in IH. by rewrite IH, on_event_issued.
Qed.

(** The state a request is in once the response callback has run and
    the chunks so far have arrived. *)
Lemma run_head_and_data (path : string) (code : Z)
    (hs : list (string * string)) (chunks : list Buffer) :
  has_unescaped path = false →
  run_events Buffer_toString (makeRequest path)
    (OnResponse code hs :: map OnData chunks)
  = {| issued := issued (makeRequest path); flushed := true;
       res := Some (code, hs);
       body := concat_chunks Buffer_toString chunks;
       settled := Pending |}.
Proof.
  intros Hpath. unfold makeRequest. rewrite Hpath.
  cbn [run_events foldl on_event].
  change (foldl (on_event Buffer_toString) ?st ?evs)
    with (run_events Buffer_toString st evs).
  by rewrite (run_data _ (code, hs)).
Qed.

Lemma settle_settled (p : promise) (st : request_state) :
  settled st ≠ Pending → settle p st = st.
Proof. unfold settle. by destruct (settled st). Qed.

Lemma on_event_settled (st : request_state) (ev : event Buffer) :
  settled st ≠ Pending →
  settled (on_event Buffer_toString st ev) = settled st.
Proof.
  intros Hst. destruct ev as [code hs|chunk| |e|]; cbn.
  - reflexivity.
  - by destruct (res st).
  - destruct (res st) as [[code hs]|]; [|reflexivity].
    by rewrite settle_settled.
  - by rewrite settle_settled.
  - reflexivity.
Qed.

(** A settled promise stays as it is, whatever is reported. *)
Lemma run_events_settled (st : request_state) (evs : list (event Buffer)) :
  settled st ≠ Pending →
  settled (run_events Buffer_toString st evs) = settled st.
Proof.
  revert st. induction evs as [|ev evs IH]; intros st Hst; [reflexivity|].
  cbn. unfold run_events in IH.
  rewrite IH; rewrite on_event_settled; done.
Qed.

(** On a path [http.request] refuses, the promise is rejected before
    any event and stays so. *)
Lemma run_refused (path : string) (evs : list (event Buffer)) :
  has_unescaped path = true →
  settled (run_events Buffer_toString (makeRequest path) evs)
  = Rejected TypeError.
Proof.
  intros Hpath. rewrite run_events_settled; unfold makeRequest;
    rewrite Hpath; done.
Qed.

(* --------------------------------------------------------------------- *)
(** *** The claims about the smoke harness                               *)
(* --------------------------------------------------------------------- *)

(** C4. On any response, the health test passes exactly when the status
    code is 200 and the body parses to an object whose [status] is the
    string ["OK"], whose [timestamp] is truthy and whose [uptime] is a
    number; the root test passes exactly when the status code is 200
    and the body is ["Hello from acquisitions api"]; the API test
    passes exactly when the status code is 200 and the body parses to
    an object whose [message] is ["Aquisitions API is running!"]. *)
Theorem tests_pass_exactly_when (response : response) :
  (health_check JSON_parse response = Ok () ↔
     statusCode response = 200%Z ∧
     ∃ fs t x,
       JSON_parse (data response) = Some (JObject fs) ∧
       fs !! "status" = Some (JString "OK") ∧
       fs !! "timestamp" = Some t ∧ truthy t = true ∧
       fs !! "uptime" = Some (JNumber x)) ∧
  (root_endpoint response = Ok () ↔
     statusCode response = 200%Z ∧
     data response = "Hello from acquisitions api") ∧
  (api_endpoint JSON_parse response = Ok () ↔
     statusCode response = 200%Z ∧
     ∃ fs,
       JSON_parse (data response) = Some (JObject fs) ∧
       fs !! "message" = Some (JString "Aquisitions API is running!")).
Proof.
  split; [|split].
  - unfold health_check. rewrite obind_ok. split.
    + intros ([] & Hcode%assert_strictEqual_ok & H).
      apply obind_ok in H as (d & Hd%parse_ok & H).
      apply obind_ok in H as (s & Hs & H).
      apply obind_ok in H as ([] & ->%assert_strictEqual_string_ok & H).
      apply obind_ok in H as (t & Ht & H).
      apply obind_ok in H as ([] & Htruthy%assert_ok & H).
      apply obind_ok in H as (u & Hu & Hnum%assert_ok).
      apply bool_decide_eq_true, typeof_number in Hnum as [x ->].
      apply member_defined in Hs as (fs & -> & Hs); [|done].
      apply member_defined in Ht as (fs' & [= <-] & Ht);
        [|by apply truthy_defined].
      apply member_defined in Hu as (fs' & [= <-] & Hu); [|done].
      split; [done|]. by exists fs, t, x.
    + intros (Hcode & fs & t & x & Hd & Hs & Ht & Htruthy & Hu).
      exists (). split; [by apply assert_strictEqual_ok|].
      unfold parse. rewrite Hd. cbn [obind member field_name].
      rewrite Hs, Ht, Hu. cbn [default id obind]. rewrite Htruthy.
      reflexivity.
  - unfold root_endpoint. rewrite obind_ok. split.
    + intros ([] & Hcode%assert_strictEqual_ok & Hdata%assert_strictEqual_ok).
      done.
    + intros [Hcode Hdata]. exists ().
      split; by apply assert_strictEqual_ok.
  - unfold api_endpoint. rewrite obind_ok. split.
    + intros ([] & Hcode%assert_strictEqual_ok & H).
      apply obind_ok in H as (d & Hd%parse_ok & H).
      apply obind_ok in H as (m & Hm & ->%assert_strictEqual_string_ok).
      apply member_defined in Hm as (fs & -> & Hm); [|done].
      split; [done|]. by exists fs.
    + intros (Hcode & fs & Hd & Hm).
      exists (). split; [by apply assert_strictEqual_ok|].
      unfold parse. rewrite Hd. cbn [obind member field_name].
      rewrite Hm. reflexivity.
Qed.

(** C5, as the code has it. For a path [http.request] accepts,
    [makeRequest] issues one request: a GET of that path to localhost,
    port 3001, with the header [Content-Type: application/json]. Its
    promise stays pending while chunks arrive and resolves at ['end']
    with the status code, the headers and the chunks' strings
    concatenated in order of arrival. On an ['error'] event of the
    request, before or during the response, the promise is rejected
    with that transport error, which the awaiting test receives. For a
    path [http.request] refuses, no request is issued and the promise
    is rejected with the [TypeError] it threw. Whatever the events, no
    further request is issued. *)
Theorem makeRequest_contract (path : string) :
  issued (makeRequest path)
  = (if has_unescaped path then []
     else [{| hostname := "localhost"; opt_port := 3001; path := path;
              method := "GET";
              req_headers := [("Content-Type", "application/json")] |}]) ∧
  flushed (makeRequest path) = negb (has_unescaped path) ∧
  settled (makeRequest path)
  = (if has_unescaped path then Rejected TypeError else Pending) ∧
  (∀ code hs chunks,
     settled (run_events Buffer_toString (makeRequest path)
                (OnResponse code hs :: map OnData chunks))
     = if has_unescaped path then Rejected TypeError else Pending) ∧
  (∀ code hs chunks,
     settled (run_events Buffer_toString (makeRequest path)
                (OnResponse code hs :: map OnData chunks ++ [OnEnd]))
     = if has_unescaped path then Rejected TypeError
       else Resolved {| statusCode := code; headers := hs;
                        data := concat_chunks Buffer_toString chunks |}) ∧
  (∀ e,
     awaited (run_events Buffer_toString (makeRequest path) [OnError e])
     = Some (Failed (if has_unescaped path then TypeError
                     else TransportError e))) ∧
  (∀ code hs chunks e,
     awaited (run_events Buffer_toString (makeRequest path)
                (OnResponse code hs :: map OnData chunks ++ [OnError e]))
     = Some (Failed (if has_unescaped path then TypeError
                     else TransportError e))) ∧
  (∀ evs,
     issued (run_events Buffer_toString (makeRequest path) evs)
     = issued (makeRequest path)).
Proof.
  destruct (has_unescaped path) eqn:Hpath.
  - split_and!; intros;
      try (unfold makeRequest; rewrite Hpath; reflexivity);
      try apply run_events_issued;
      unfold awaited; by rewrite run_refused.
  - split_and!; intros;
      try (unfold makeRequest; rewrite Hpath; reflexivity);
      try apply run_events_issued;
      rewrite ?app_comm_cons, ?run_events_app, run_head_and_data by done;
      reflexivity.
Qed.

(** While the server listens and every request settles, the tests run
    one after the other to the end of the list, whatever each one's
    outcome, and leave the server and the ports as they found them. *)
Lemma run_tests_complete (app : string → list (event Buffer))
    (ts : list (string * (response → outcome unit))) (s : session) :
  server s = Some Listening →
  (∀ t, t ∈ ts →
     is_Some (awaited (run_events Buffer_toString (makeRequest t.1)
                         (app t.1)))) →
  ∃ rs s',
    run_tests Buffer_toString app ts s = Some (rs, s') ∧
    length rs = length ts ∧
    server s' = server s ∧ bound s' = bound s ∧
    log s' = log s ++ zip_with Ran ts.*1 rs.
Proof.
  revert s. induction ts as [|t ts IH]; intros s Hsrv Hsettle.
  - exists [], s. cbn. by rewrite app_nil_r.
  - destruct (Hsettle t) as [r Hr]; [apply list_elem_of_here|].
    set (s1 := {| server := server s; bound := bound s;
                  log := log s ++ [Ran t.1 (response <- r;; t.2 response)] |}).
    destruct (IH s1) as (rs & s' & Hrun & Hlen & Hs' & Hb' & Hlog).
    { exact Hsrv. }
    { intros t' Ht'. apply Hsettle. by apply list_elem_of_further. }
    exists ((response <- r;; t.2 response) :: rs), s'.
    cbn [run_tests]. unfold run_test, network. rewrite Hsrv, Hr.
    cbn [mbind option_bind]. subst s1. cbn [server bound log] in *.
    rewrite Hsrv in Hrun. rewrite Hrun. cbn [mbind option_bind].
    split_and!; [reflexivity|cbn; by rewrite Hlen|congruence|done|].
    rewrite Hlog. cbn [fmap list_fmap zip_with].
    by rewrite <- app_assoc.
Qed.

(** C6. Started with the test port free, and with every request of
    the three tests settling, a run of the group binds the port once,
    runs the three tests whatever their outcomes, and then closes the
    server once: the run ends with the server closed and the port
    released, and its record is the binding, the three tests in order,
    and one release after the last of them. *)
Theorem teardown_exactly_once (app : string → list (event Buffer))
    (s : session) :
  port ∉ bound s →
  (∀ path, path ∈ ["/health"; "/"; "/api"] →
     is_Some (awaited (run_events Buffer_toString (makeRequest path)
                         (app path)))) →
  ∃ r1 r2 r3 s',
    run_group Buffer_toString JSON_parse app s = Some ([r1; r2; r3], s') ∧
    server s' = Some Closed ∧
    (port ∉ bound s') ∧ bound s' = bound s ∧
    log s' = log s ++ [Bound port; Ran "/health" r1; Ran "/" r2;
                        Ran "/api" r3; Released port].
Proof.
  intros Hfree Hsettle.
  set (s1 := {| server := Some Listening; bound := {[port]} ∪ bound s;
                log := log s ++ [Bound port] |}).
  destruct (run_tests_complete app (tests JSON_parse) s1)
    as (rs & s2 & Hrun & Hlen & Hsrv & Hb & Hlog).
  { reflexivity. }
  { intros t Ht. apply Hsettle. unfold tests in Ht.
    apply (list_elem_of_fmap_2 fst) in Ht. exact Ht. }
  destruct rs as [|r1 [|r2 [|r3 [|r4 rs]]]]; try discriminate Hlen.
  exists r1, r2, r3, (after s2).
  unfold run_group, describe, before. cbn zeta. cbn [bound log].
  rewrite decide_False by exact Hfree. cbn [mbind option_bind]. fold s1.
  rewrite Hrun. cbn [mbind option_bind].
  unfold after. rewrite Hsrv. cbn [server s1 bound log].
  rewrite Hb, Hlog. cbn [bound s1 log].
  split_and!; [reflexivity|reflexivity| | |].
  - intros [_ Hne]%elem_of_difference. apply Hne. by apply elem_of_singleton.
  - apply set_eq. intros p. rewrite elem_of_difference, elem_of_union,
      elem_of_singleton. split; [intros [[->|Hp] Hne]; done|].
    intros Hp. split; [by right|]. by intros ->.
  - rewrite <- !app_assoc. reflexivity.
Qed.

End Claims.

(** C5, as the specification words it, fails: the path [/a b] has a
    space, [http.request] refuses it, and [makeRequest] issues no
    request at all; the promise is rejected with a [TypeError], not
    with a transport error. *)
Lemma makeRequest_refused_path_counterexample :
  has_unescaped "/a b" = true ∧
  issued (makeRequest "/a b") = [] ∧
  flushed (makeRequest "/a b") = false ∧
  awaited (makeRequest "/a b") = Some (Failed TypeError).
Proof. split_and!; reflexivity. Qed.

Lemma teardown_exactly_once_witness :
  ∃ r1 r2 r3 s',
    run_group (λ chunk : string, chunk) reject_all sample_app fresh_session
    = Some ([r1; r2; r3], s') ∧
    server s' = Some Closed ∧
    (port ∉ bound s') ∧ bound s' = bound fresh_session ∧
    log s' = log fresh_session
             ++ [Bound port; Ran "/health" r1; Ran "/" r2;
                 Ran "/api" r3; Released port].
Proof.
  apply (teardown_exactly_once string (λ chunk, chunk) reject_all
           sample_app fresh_session).
  - apply not_elem_of_empty.
  - intros path Hpath. apply list_elem_of_In in Hpath. simpl in Hpath.
    destruct Hpath as [<-|[<-|[<-|[]]]]; eexists; reflexivity.
Defined.

(** The group run against the stand-in application: the health and
    API tests fail on the status code, the root test passes, and the
    server is closed after the third test all the same. *)
Example sample_run :
  run_group (λ chunk : string, chunk) reject_all sample_app fresh_session
  = Some ([Failed AssertionError; Ok (); Failed AssertionError],
          {| server := Some Closed; bound := ∅;
             log := [Bound 3001; Ran "/health" (Failed AssertionError);
                     Ran "/" (Ok ()); Ran "/api" (Failed AssertionError);
                     Released 3001] |}).
Proof. vm_compute. reflexivity. Qed.

Example health_check_passes :
  health_check parse_health_only
    {| statusCode := 200; headers := []; data := health_body |} = Ok ().
Proof. vm_compute. reflexivity. Qed.

Example health_check_wrong_status :
  health_check parse_health_only
    {| statusCode := 503; headers := []; data := health_body |}
  = Failed AssertionError.
Proof. vm_compute. reflexivity. Qed.

Example health_check_not_json :
  health_check parse_health_only
    {| statusCode := 200; headers := []; data := "Hello" |}
  = Failed SyntaxError.
Proof. vm_compute. reflexivity. Qed.

Example zero_is_falsy :
  truthy (JNumber 0%float) = false ∧ truthy (JString "") = false ∧
  truthy (JObject ∅) = true.
Proof. repeat split. Qed.

Example refused_connection :
  awaited (run_events (λ chunk : string, chunk) (makeRequest "/health")
             [OnError ECONNREFUSED])
  = Some (Failed (TransportError ECONNREFUSED)).
Proof. reflexivity. Qed.

Example connection_lost_mid_body :
  awaited (run_events (λ chunk : string, chunk) (makeRequest "/")
             [OnResponse 200 []; OnData "Hello from "; OnAborted])
  = None.
Proof. reflexivity. Qed.

Example body_in_two_chunks :
  awaited (run_events (λ chunk : string, chunk) (makeRequest "/")
             (sample_app "/"))
  = Some (Ok {| statusCode := 200;
                headers := [("content-type", "text/html; charset=utf-8")];
                data := "Hello from acquisitions api" |}).
Proof. vm_compute. reflexivity. Qed.

End HarnessSpec.

(* ===================================================================== *)
(** ** Further properties of the cookie helper                           *)
(* ===================================================================== *)

Module CookiesMore.
Import JS Cookies.

(** X1. When the request carries a parsed cookie collection that has
    the name, [get] returns the value stored under it and changes
    nothing. *)
Theorem get_present_cookie
    (w : world) (req : value) (jar : gmap string value)
    (name : string) (v : value) :
  parsed_cookies w req = Some jar →
  jar !! name = Some v →
  get req name w = (Return v, w).
Proof.
  intros Hjar Hname. exact (CookiesSpec.get_own_property w req jar name v Hjar Hname).
Qed.

Lemma get_present_cookie_witness :
  get (VObject 1%positive) "token" world_cookie_request
  = (Return (VString "abc"), world_cookie_request).
Proof.
  apply (get_present_cookie world_cookie_request (VObject 1%positive)
           {["token" := VString "abc"]} "token" (VString "abc")).
  - reflexivity.
  - reflexivity.
Defined.

(** X2. [get] is read-only: whatever the request and the name, and
    whether it returns or throws, the environment, the store and the
    recorded directives are afterwards what they were. *)
Theorem get_is_read_only (req : value) (name : string) (w : world) :
  (get req name w).2 = w.
Proof.
  rewrite CookiesSpec.get_unfold.
  destruct (get_property req "cookie" w).1 as [jar|e]; [|reflexivity].
  apply CookiesSpec.get_property_world.
Qed.

(** X3. [get] throws exactly when the request is [undefined] or [null]
    or its [cookie] property reads as [undefined] or [null]; what it
    throws is then a [TypeError], never anything else. *)
Theorem get_throws_exactly_when
    (req : value) (name : string) (w : world) (e : exn) :
  (get req name w).1 = Throw e ↔
  e = TypeError ∧
  (req = VUndefined ∨ req = VNull ∨
   (get_property req "cookie" w).1 = Return VUndefined ∨
   (get_property req "cookie" w).1 = Return VNull).
Proof.
  rewrite CookiesSpec.get_unfold.
  destruct (get_property req "cookie" w).1 as [jar|e'] eqn:Hjar.
  - rewrite CookiesSpec.get_property_throws. split.
    + intros [-> [->| ->]]; auto.
    + intros [-> [-> | [-> | [[= ->] | [= ->]]]]];
        try (cbn in Hjar; discriminate Hjar); auto.
  - apply CookiesSpec.get_property_throws in Hjar as [-> Hreq]. cbn. split.
    + intros [= <-]. split; [done|]. destruct Hreq; auto.
    + by intros [-> _].
Qed.

(** X4. The object [set] and [clear] hand to the response has the
    overrides' keys and the four policy keys, and no other key. *)
Theorem merged_keys_exact (options : value) (w : world) :
  ∃ (lm : loc) (w' : world) (merged : gmap string value),
    (∀ res name val,
       set res name val options w
       = (res_cookie res name val (VObject lm);;; ret VUndefined) w') ∧
    (∀ res name,
       clear res name options w = res_clearCookie res name (VObject lm) w') ∧
    heap w' !! lm = Some merged ∧
    dom merged = dom (own_props (heap w) options) ∪ policy_keys.
Proof.
  destruct (CookiesSpec.handed_over options w)
    as (lm & w' & Hset & Hclear & Hm & _).
  exists lm, w', (own_props (heap w) options ∪ default_options (env w)).
  split_and!; try assumption.
  by rewrite dom_union_L, CookiesSpec.default_options_dom.
Qed.

(** X5. Overrides with no own property (an omitted argument, [{}],
    [null], a number, a boolean) leave the policy as it is: the
    response is handed exactly the defaults. *)
Theorem no_overrides_hands_defaults (options : value) (w : world) :
  own_props (heap w) options = ∅ →
  ∃ (lm : loc) (w' : world),
    (∀ res name val,
       set res name val options w
       = (res_cookie res name val (VObject lm);;; ret VUndefined) w') ∧
    (∀ res name,
       clear res name options w = res_clearCookie res name (VObject lm) w') ∧
    heap w' !! lm = Some (default_options (env w)).
Proof.
  intros Hnone.
  destruct (CookiesSpec.handed_over options w)
    as (lm & w' & Hset & Hclear & Hm & _).
  exists lm, w'. split_and!; try assumption.
  rewrite Hm, Hnone. f_equal; apply (left_id_L ∅ (∪)).
Qed.

Lemma no_overrides_hands_defaults_witness :
  ∃ (lm : loc) (w' : world),
    (∀ res name val,
       set res name val VUndefined world_prod
       = (res_cookie res name val (VObject lm);;; ret VUndefined) w') ∧
    (∀ res name,
       clear res name VUndefined world_prod
       = res_clearCookie res name (VObject lm) w') ∧
    heap w' !! lm = Some (default_options (env world_prod)).
Proof.
  apply (no_overrides_hands_defaults VUndefined world_prod).
  reflexivity.
Defined.

(** X6. [set] discards what [res.cookie] returns and returns
    [undefined]; an exception [res.cookie] throws comes out of [set]
    as it is. [clear] ends exactly as [res.clearCookie] ends. Neither
    does anything after the response's method is done. *)
Theorem set_result_and_errors (options : value) (w : world) :
  ∃ (lm : loc) (w' : world),
    ∀ (res : response) (name val : value),
      set res name val options w
      = (match (res_cookie res name val (VObject lm) w').1 with
         | Return _ => Return VUndefined
         | Throw e => Throw e
         end,
         (res_cookie res name val (VObject lm) w').2) ∧
      clear res name options w = res_clearCookie res name (VObject lm) w'.
Proof.
  destruct (CookiesSpec.handed_over options w)
    as (lm & w' & Hset & Hclear & _).
  exists lm, w'. intros res name val. split; [|apply Hclear].
  rewrite Hset. unfold bind, ret.
  by destruct (res_cookie res name val (VObject lm) w') as [[r|e] w''].
Qed.

(** X7. Against a response that records what it is asked, [set] adds
    one directive, to store the cookie under the name and value it was
    given and the overrides laid over the defaults, and [clear] adds
    one directive, to expire the cookie under the same attributes.
    Directives recorded earlier stay in place. *)
Theorem set_and_clear_record_one_directive
    (self name val options : value) (w : world) :
  set (recording_response self) name val options w
  = (Return VUndefined,
     (set (recording_response self) name val options w).2) ∧
  sent (set (recording_response self) name val options w).2
  = sent w ++ [Directive StoreCookie name val
                 (own_props (heap w) options ∪ default_options (env w))] ∧
  (clear (recording_response self) name options w).1 = Return self ∧
  sent (clear (recording_response self) name options w).2
  = sent w ++ [Directive ExpireCookie name (VString "")
                 (own_props (heap w) options ∪ default_options (env w))].
Proof.
  destruct (CookiesSpec.handed_over options w)
    as (lm & w' & Hset & Hclear & Hm & _ & _ & Hsent & _).
  rewrite Hset, Hclear. unfold bind, ret. cbn.
  rewrite Hm, Hsent. cbn. done.
Qed.

End CookiesMore.

(* ===================================================================== *)
(** ** Further properties of the smoke harness                           *)
(* ===================================================================== *)

Module HarnessMore.
Import Harness.

Section Properties.

Variable Buffer : Type.
Variable Buffer_toString : Buffer → string.
Variable JSON_parse : string → option jsval.

Lemma on_event_quiet (st : request_state) (ev : event Buffer) :
  quiet ev = true → settled (on_event Buffer_toString st ev) = settled st.
Proof.
  destruct ev as [code hs|chunk| |e|]; cbn; try done.
  intros _. by destruct (res st).
Qed.

(** What the assertions after the status check and the parse can end
    in: the field checks of the health test. *)
Lemma health_fields_failure (d : jsval) (f : failure) :
  (s <- member d status;;
   assert_strictEqual_string s "OK";;;
   t <- member d timestamp;;
   assert (truthy t);;;
   u <- member d uptime;;
   assert (bool_decide (typeof u = "number"))) = Failed f →
  (f = TypeError ∧ (d = JNull ∨ d = JUndefined)) ∨
  (f = AssertionError ∧ d ≠ JNull ∧ d ≠ JUndefined).
Proof.
  destruct d; cbn; try (intros [= <-]; auto; fail).
  destruct (default JUndefined (fs !! "status")) as [| | | |s| |]; cbn;
    try (intros [= <-]; auto; fail).
  unfold assert_strictEqual. case_bool_decide; cbn;
    [|intros [= <-]; auto].
  destruct (truthy _); cbn; [|intros [= <-]; auto].
  case_bool_decide; cbn; [discriminate|intros [= <-]; auto].
Qed.

Lemma api_fields_failure (d : jsval) (f : failure) :
  (m <- member d message;;
   assert_strictEqual_string m "Aquisitions API is running!") = Failed f →
  (f = TypeError ∧ (d = JNull ∨ d = JUndefined)) ∨
  (f = AssertionError ∧ d ≠ JNull ∧ d ≠ JUndefined).
Proof.
  destruct d; cbn; try (intros [= <-]; auto; fail).
  destruct (default JUndefined (fs !! "message")) as [| | | |s| |]; cbn;
    try (intros [= <-]; auto; fail).
  unfold assert_strictEqual. case_bool_decide; cbn;
    [discriminate|intros [= <-]; auto].
Qed.

Lemma status_check (r : response) :
  assert_strictEqual (statusCode r) 200%Z
  = if decide (statusCode r = 200%Z) then Ok () else Failed AssertionError.
Proof.
  unfold assert_strictEqual. by case_bool_decide; case_decide.
Qed.

Lemma run_events_quiet (st : request_state) (evs : list (event Buffer)) :
  Forall (λ ev, quiet ev = true) evs →
  settled (run_events Buffer_toString st evs) = settled st.
Proof.
  revert st. induction evs as [|ev evs IH]; intros st Hq; [reflexivity|].
  apply Forall_cons in Hq as [Hev Hevs]. cbn. unfold run_events in IH.
  by rewrite IH, on_event_quiet.
Qed.

Lemma run_group_completes (app : string → list (event Buffer)) (s : session) :
  port ∉ bound s →
  (∀ path, path ∈ ["/health"; "/"; "/api"] →
     is_Some (awaited (run_events Buffer_toString (makeRequest path)
                         (app path)))) →
  ∃ rs s',
    run_group Buffer_toString JSON_parse app s = Some (rs, s') ∧
    server s' = Some Closed ∧ bound s' = bound s ∧
    log s' = log s ++ Bound port :: zip_with Ran ["/health"; "/"; "/api"] rs
                   ++ [Released port].
Proof.
  intros Hfree Hsettle.
  set (s1 := {| server := Some Listening; bound := {[port]} ∪ bound s;
                log := log s ++ [Bound port] |}).
  destruct (HarnessSpec.run_tests_complete Buffer Buffer_toString app
              (tests JSON_parse) s1)
    as (rs & s2 & Hrun & _ & Hsrv & Hb & Hlog).
  { reflexivity. }
  { intros t Ht. apply Hsettle.
    apply (list_elem_of_fmap_2 fst) in Ht. exact Ht. }
  exists rs, (after s2).
  unfold run_group, describe, before. cbn zeta. cbn [bound log].
  rewrite decide_False by exact Hfree. cbn [mbind option_bind]. fold s1.
  rewrite Hrun. cbn [mbind option_bind].
  unfold after. rewrite Hsrv. cbn [server s1 bound log].
  rewrite Hb, Hlog. cbn [bound s1 log].
  split_and!; [reflexivity|reflexivity| |].
  - apply set_eq. intros p. rewrite elem_of_difference, elem_of_union,
      elem_of_singleton. split; [intros [[->|Hp] Hne]; done|].
    intros Hp. split; [by right|]. by intros ->.
  - rewrite <- !app_assoc. reflexivity.
Qed.

(* --------------------------------------------------------------------- *)
(** *** The request primitive                                            *)
(* --------------------------------------------------------------------- *)

(** X8. A promise [makeRequest] returned settles once: after it was
    resolved or rejected, no event of the transport changes what the
    awaiting test receives. *)
Theorem promise_settles_once (st : request_state)
    (evs : list (event Buffer)) :
  settled st ≠ Pending →
  settled (run_events Buffer_toString st evs) = settled st ∧
  awaited (run_events Buffer_toString st evs) = awaited st.
Proof.
  intros Hst.
  pose proof (HarnessSpec.run_events_settled Buffer Buffer_toString
                st evs Hst) as H.
  split; [exact H|]. unfold awaited. by rewrite H.
Qed.

(** X9. The first of ['end'] and ['error'] decides the request: a
    response that ended stays the result whatever the transport
    reports later, an error included; a request that failed first
    stays failed even if a response follows. (On a path
    [http.request] refuses the promise was rejected with its
    [TypeError] before any event, and that stands likewise.) *)
Theorem first_outcome_stands (path : string) :
  (∀ code hs chunks evs,
     awaited (run_events Buffer_toString (makeRequest path)
                (OnResponse code hs :: map OnData chunks ++ OnEnd :: evs))
     = Some (if has_unescaped path then Failed TypeError
             else Ok {| statusCode := code; headers := hs;
                        data := concat_chunks Buffer_toString chunks |})) ∧
  (∀ e evs,
     awaited (run_events Buffer_toString (makeRequest path)
                (OnError e :: evs))
     = Some (Failed (if has_unescaped path then TypeError
                     else TransportError e))).
Proof.
  destruct (has_unescaped path) eqn:Hpath.
  - split; intros; unfold awaited; by rewrite HarnessSpec.run_refused.
  - split.
    + intros code hs chunks evs.
      rewrite app_comm_cons, HarnessSpec.run_events_app.
      rewrite HarnessSpec.run_head_and_data by done.
      cbn [run_events foldl on_event res settle settled].
      change (foldl (on_event Buffer_toString) ?st ?l)
        with (run_events Buffer_toString st l).
      unfold awaited. by rewrite HarnessSpec.run_events_settled.
    + intros e evs. unfold makeRequest. rewrite Hpath.
      cbn [run_events foldl on_event settle settled].
      change (foldl (on_event Buffer_toString) ?st ?l)
        with (run_events Buffer_toString st l).
      unfold awaited. by rewrite HarnessSpec.run_events_settled.
Qed.

(** X10. As long as the transport has reported neither ['end'] nor
    ['error'], the promise of a request that was issued is pending:
    the awaiting test is never handed a response whose body is still
    arriving. (On a path [http.request] refuses the promise is
    rejected from the start.) *)
Theorem pending_until_end_or_error (path : string)
    (evs : list (event Buffer)) :
  Forall (λ ev, quiet ev = true) evs →
  settled (run_events Buffer_toString (makeRequest path) evs)
  = (if has_unescaped path then Rejected TypeError else Pending) ∧
  awaited (run_events Buffer_toString (makeRequest path) evs)
  = (if has_unescaped path then Some (Failed TypeError) else None).
Proof.
  intros Hq. pose proof (run_events_quiet (makeRequest path) evs Hq) as H.
  unfold awaited. rewrite H. unfold makeRequest.
  by destruct (has_unescaped path).
Qed.

(* --------------------------------------------------------------------- *)
(** *** The three tests                                                  *)
(* --------------------------------------------------------------------- *)

(** X11. The status code is checked first: on a response whose status
    code is not 200 each of the three tests fails with an
    [AssertionError], whatever the body and whatever [JSON.parse]
    would make of it. *)
Theorem status_checked_first (r : response) :
  statusCode r ≠ 200%Z →
  health_check JSON_parse r = Failed AssertionError ∧
  root_endpoint r = Failed AssertionError ∧
  api_endpoint JSON_parse r = Failed AssertionError.
Proof.
  intros Hcode. unfold health_check, root_endpoint, api_endpoint.
  rewrite status_check, decide_False by exact Hcode. done.
Qed.

(** X12. The health test and the API test fail with a [SyntaxError]
    exactly when the status code is 200 and the body is not JSON. *)
Theorem syntax_error_exactly_when (r : response) :
  (health_check JSON_parse r = Failed SyntaxError ↔
     statusCode r = 200%Z ∧ JSON_parse (data r) = None) ∧
  (api_endpoint JSON_parse r = Failed SyntaxError ↔
     statusCode r = 200%Z ∧ JSON_parse (data r) = None).
Proof.
  unfold health_check, api_endpoint, parse. rewrite status_check.
  case_decide as Hcode; cbn [obind];
    [|split; (split; [discriminate|by intros [? _]])].
  destruct (JSON_parse (data r)) as [d|]; cbn [obind];
    [|split; (split; [done|done])].
  split; (split; [|by intros [_ [=]]]).
  - intros [[[=] _]|[[=] _]]%health_fields_failure.
  - intros [[[=] _]|[[=] _]]%api_fields_failure.
Qed.

(** X13. The health test and the API test fail with a [TypeError]
    exactly when the status code is 200 and the body parses to [null]
    (or to [undefined], for a parser that could produce it): a value
    that has no properties to read. *)
Theorem type_error_exactly_when (r : response) :
  (health_check JSON_parse r = Failed TypeError ↔
     statusCode r = 200%Z ∧
     (JSON_parse (data r) = Some JNull ∨
      JSON_parse (data r) = Some JUndefined)) ∧
  (api_endpoint JSON_parse r = Failed TypeError ↔
     statusCode r = 200%Z ∧
     (JSON_parse (data r) = Some JNull ∨
      JSON_parse (data r) = Some JUndefined)).
Proof.
  unfold health_check, api_endpoint, parse. rewrite status_check.
  case_decide as Hcode; cbn [obind];
    [|split; (split; [discriminate|by intros [? _]])].
  destruct (JSON_parse (data r)) as [d|]; cbn [obind];
    [|split; (split; [discriminate|by intros [_ [[=]|[=]]]])].
  split; split.
  - intros [[_ [-> | ->]]|[[=] _]]%health_fields_failure; auto.
  - by intros [_ [[= ->]|[= ->]]].
  - intros [[_ [-> | ->]]|[[=] _]]%api_fields_failure; auto.
  - by intros [_ [[= ->]|[= ->]]].
Qed.

(** X14. The assertions fail in no other way: a failure of the health
    or API test body is an [AssertionError], a [SyntaxError] or a
    [TypeError], and a failure of the root test body is an
    [AssertionError]; the root test never parses the body. *)
Theorem test_failures_classified (r : response) (f : failure) :
  (health_check JSON_parse r = Failed f →
     f = AssertionError ∨ f = SyntaxError ∨ f = TypeError) ∧
  (api_endpoint JSON_parse r = Failed f →
     f = AssertionError ∨ f = SyntaxError ∨ f = TypeError) ∧
  (root_endpoint r = Failed f → f = AssertionError).
Proof.
  unfold health_check, api_endpoint, root_endpoint, parse.
  rewrite status_check.
  case_decide as Hcode; cbn [obind];
    [|split_and!; intros [= <-]; auto].
  split_and!.
  - destruct (JSON_parse (data r)) as [d|]; cbn [obind];
      [|intros [= <-]; auto].
    intros [[-> _]|[-> _]]%health_fields_failure; auto.
  - destruct (JSON_parse (data r)) as [d|]; cbn [obind];
      [|intros [= <-]; auto].
    intros [[-> _]|[-> _]]%api_fields_failure; auto.
  - unfold assert_strictEqual. case_bool_decide; cbn; [discriminate|].
    by intros [= <-].
Qed.

(* --------------------------------------------------------------------- *)
(** *** The group                                                        *)
(* --------------------------------------------------------------------- *)

(** X15. Each test's outcome is its own: with the port free at the
    start, the outcomes the group records are, in order, the health
    assertions on the answer to [/health], the root assertions on the
    answer to [/] and the API assertions on the answer to [/api]; no
    test's outcome depends on another's, and a request that failed
    fails its test with that transport error. *)
Theorem group_outcomes_are_per_test (app : string → list (event Buffer))
    (s : session) (o1 o2 o3 : outcome response) :
  port ∉ bound s →
  awaited (run_events Buffer_toString (makeRequest "/health")
             (app "/health")) = Some o1 →
  awaited (run_events Buffer_toString (makeRequest "/") (app "/"))
    = Some o2 →
  awaited (run_events Buffer_toString (makeRequest "/api") (app "/api"))
    = Some o3 →
  ∃ s',
    run_group Buffer_toString JSON_parse app s
    = Some ([obind o1 (health_check JSON_parse);
             obind o2 root_endpoint;
             obind o3 (api_endpoint JSON_parse)], s').
Proof.
  intros Hfree H1 H2 H3. eexists.
  unfold run_group, describe, before. cbn zeta. cbn [bound log].
  rewrite decide_False by exact Hfree.
  cbn [mbind option_bind tests run_tests].
  unfold run_test, network. cbn [server fst snd].
  rewrite H1. cbn [mbind option_bind].
  rewrite H2. cbn [mbind option_bind].
  rewrite H3. cbn [mbind option_bind].
  reflexivity.
Qed.

(** X16. The [after] hook can be run again without harm: a second run
    changes nothing, the hook never leaves the server listening, it
    never binds a port, and it does nothing at all when the [before]
    hook never set [server]. *)
Theorem after_is_idempotent (s : session) :
  after (after s) = after s ∧
  server (after s) ≠ Some Listening ∧
  bound (after s) ⊆ bound s ∧
  after {| server := None; bound := bound s; log := log s |}
  = {| server := None; bound := bound s; log := log s |}.
Proof.
  unfold after.
  destruct (server s) as [[| |]|] eqn:Hsrv; cbn; rewrite ?Hsrv;
    split_and!; try done; apply subseteq_difference_l; done.
Qed.

(** X17. The port is free for the next run: with the test port free
    at the start and every request settling, two runs of the group
    one after the other both complete, and the second one too ends
    with the server closed and the ports as they were. *)
Theorem port_free_for_next_run (app : string → list (event Buffer))
    (s : session) :
  port ∉ bound s →
  (∀ path, path ∈ ["/health"; "/"; "/api"] →
     is_Some (awaited (run_events Buffer_toString (makeRequest path)
                         (app path)))) →
  ∃ rs1 s1 rs2 s2,
    run_group Buffer_toString JSON_parse app s = Some (rs1, s1) ∧
    run_group Buffer_toString JSON_parse app s1 = Some (rs2, s2) ∧
    server s2 = Some Closed ∧ bound s2 = bound s ∧ (port ∉ bound s2).
Proof.
  intros Hfree Hsettle.
  destruct (run_group_completes app s Hfree Hsettle)
    as (rs1 & s1 & Hrun1 & _ & Hb1 & _).
  assert (Hfree1 : port ∉ bound s1) by (by rewrite Hb1).
  destruct (run_group_completes app s1 Hfree1 Hsettle)
    as (rs2 & s2 & Hrun2 & Hsrv2 & Hb2 & _).
  exists rs1, s1, rs2, s2. split_and!; try done.
  - by rewrite Hb2.
  - by rewrite Hb2, Hb1.
Qed.

End Properties.

Lemma promise_settles_once_witness :
  settled (run_events (λ chunk : string, chunk)
             (run_events (λ chunk : string, chunk) (makeRequest "/")
                (sample_app "/"))
             [OnError ECONNRESET])
  = settled (run_events (λ chunk : string, chunk) (makeRequest "/")
               (sample_app "/")) ∧
  awaited (run_events (λ chunk : string, chunk)
             (run_events (λ chunk : string, chunk) (makeRequest "/")
                (sample_app "/"))
             [OnError ECONNRESET])
  = awaited (run_events (λ chunk : string, chunk) (makeRequest "/")
               (sample_app "/")).
Proof.
  apply (promise_settles_once string (λ chunk, chunk)
           (run_events (λ chunk : string, chunk) (makeRequest "/")
              (sample_app "/"))
           [OnError ECONNRESET]).
  discriminate.
Defined.

Lemma pending_until_end_or_error_witness :
  settled (run_events (λ chunk : string, chunk) (makeRequest "/health")
             [OnResponse 200 []; OnData "par"; OnAborted]) = Pending ∧
  awaited (run_events (λ chunk : string, chunk) (makeRequest "/health")
             [OnResponse 200 []; OnData "par"; OnAborted]) = None.
Proof.
  apply (pending_until_end_or_error string (λ chunk, chunk) "/health"
           [OnResponse 200 []; OnData "par"; OnAborted]).
  repeat constructor.
Defined.

Lemma status_checked_first_witness :
  health_check reject_all
    {| statusCode := 404; headers := []; data := "Not Found" |}
  = Failed AssertionError ∧
  root_endpoint {| statusCode := 404; headers := []; data := "Not Found" |}
  = Failed AssertionError ∧
  api_endpoint reject_all
    {| statusCode := 404; headers := []; data := "Not Found" |}
  = Failed AssertionError.
Proof.
  apply (status_checked_first reject_all
           {| statusCode := 404; headers := []; data := "Not Found" |}).
  discriminate.
Defined.

Lemma group_outcomes_are_per_test_witness :
  ∃ s',
    run_group (λ chunk : string, chunk) reject_all sample_app fresh_session
    = Some ([obind (Ok {| statusCode := 404; headers := [];
                          data := "Not Found" |})
               (health_check reject_all);
             obind (Ok {| statusCode := 200;
                          headers := [("content-type",
                                       "text/html; charset=utf-8")];
                          data := "Hello from acquisitions api" |})
               root_endpoint;
             obind (Ok {| statusCode := 404; headers := [];
                          data := "Not Found" |})
               (api_endpoint reject_all)], s').
Proof.
  apply (group_outcomes_are_per_test string (λ chunk, chunk) reject_all
           sample_app fresh_session).
  - apply not_elem_of_empty.
  - vm_compute. reflexivity.
  - vm_compute. reflexivity.
  - vm_compute. reflexivity.
Defined.

Lemma port_free_for_next_run_witness :
  ∃ rs1 s1 rs2 s2,
    run_group (λ chunk : string, chunk) reject_all sample_app fresh_session
    = Some (rs1, s1) ∧
    run_group (λ chunk : string, chunk) reject_all sample_app s1
    = Some (rs2, s2) ∧
    server s2 = Some Closed ∧ bound s2 = bound fresh_session ∧
    (port ∉ bound s2).
Proof.
  apply (port_free_for_next_run string (λ chunk, chunk) reject_all
           sample_app fresh_session).
  - apply not_elem_of_empty.
  - intros path Hpath. apply list_elem_of_In in Hpath. simpl in Hpath.
    destruct Hpath as [<-|[<-|[<-|[]]]]; eexists; reflexivity.
Defined.

End HarnessMore.
